(** * Leads CRM: the lead table and the lead modal

    A shallow embedding of [frontend/src/components/Table.jsx], which holds
    the two React components [Table] and [LeadModal].

    - Component state ([useState]) is a record per component; a setter
      replaces one field.
    - A handler is a computation in a small state monad over [World]: the
      state of both components plus the requests in flight.
    - An [async] handler is cut at its [await fetch(...)]: the part before
      it issues the request and registers a [Continuation]; the part after
      it ([..._then]) runs when the network settles the request.
    - A handler closes over the values of the render it was created in; the
      values it reads are passed to it explicitly by the event dispatcher
      [step], and travel with the continuation across an [await]. *)

From Stdlib Require Import String Ascii List ZArith Bool Arith Lia.
From Stdlib Require Import DecimalString.
Import ListNotations.
Local Open Scope string_scope.
Local Open Scope list_scope.

(** ** JavaScript values *)

Module Js.

(** The values [activeModal] takes: [false] initially, [true] once the
    create button is clicked, [!activeModal], and [null]. *)
Inductive flag :=
| Null
| Bool (b : bool).

Definition truthy (v : flag) : bool :=
  match v with
  | Null => false
  | Bool b => b
  end.

(** [!v] *)
Definition not (v : flag) : flag := Bool (negb (truthy v)).

(** [v && s] converted to a string, as a template literal does. *)
Definition and_string (v : flag) (s : string) : string :=
  match v with
  | Null => "null"
  | Bool false => "false"
  | Bool true => s
  end.

(** Truthiness of a string-or-null value: [null] and the empty string
    are falsy. *)
Definition truthy_string (v : option string) : bool :=
  match v with
  | None => false
  | Some s => negb (String.eqb s "")
  end.

(** Decimal rendering of a non-negative integer ([String(n)]). *)
Definition decimal (n : nat) : string :=
  NilZero.string_of_uint (Nat.to_uint n).

End Js.

(** ** JSON.stringify on flat objects of strings

    An object literal is an association list in property order.  A string
    is quoted as ECMAScript's QuoteJSONString does on the bytes of its
    UTF-8 form: the two-character escapes, [\u00xx] for the other control
    characters, every other byte unchanged. *)

Module JSON.

Definition dquote : ascii := "034"%char.
Definition backslash : ascii := "092"%char.

Definition escape (c : ascii) : string :=
  String backslash (String c EmptyString).

Definition hex_digit (n : nat) : ascii :=
  nth n (list_ascii_of_string "0123456789abcdef") "0"%char.

Definition unicode_escape (n : nat) : string :=
  String backslash
    (String "u" (String "0" (String "0"
      (String (hex_digit (n / 16)) (String (hex_digit (n mod 16)) EmptyString))))).

Definition quote_char (c : ascii) : string :=
  let n := nat_of_ascii c in
  if (n =? 8)%nat then escape "b"
  else if (n =? 9)%nat then escape "t"
  else if (n =? 10)%nat then escape "n"
  else if (n =? 12)%nat then escape "f"
  else if (n =? 13)%nat then escape "r"
  else if (n =? 34)%nat then escape dquote
  else if (n =? 92)%nat then escape backslash
  else if (n <? 32)%nat then unicode_escape n
  else String c EmptyString.

Fixpoint quote_chars (s : string) : string :=
  match s with
  | EmptyString => EmptyString
  | String c s' => quote_char c ++ quote_chars s'
  end.

Definition quote (s : string) : string :=
  String dquote (quote_chars s ++ String dquote EmptyString).

Definition object := list (string * string).

Definition keys (o : object) : list string := map fst o.

Definition member (kv : string * string) : string :=
  quote (fst kv) ++ ":" ++ quote (snd kv).

Definition stringify (o : object) : string :=
  "{" ++ String.concat "," (map member o) ++ "}".

(** Writes a JSON text with apostrophes in place of double quotes, so
    that expected texts can be given as literals. *)
Fixpoint apostrophes_as_quotes (s : string) : string :=
  match s with
  | EmptyString => EmptyString
  | String c s' =>
      String (if Ascii.eqb c "'"%char then dquote else c)
             (apostrophes_as_quotes s')
  end.

End JSON.

(** ** moment(...).format('MMM Do YY')

    The date library is not part of the repository.  Parsing a timestamp
    and converting it to local time is left to a parameter ([moment], in
    section [Components]); only the three format tokens the table uses are
    written out, for the default (English) locale. *)

Module Moment.

(** The local calendar fields of a valid moment: [year()], [month()]
    (0 for January) and [date()]. *)
Record t := mk { year : Z; month : nat; date : nat }.

Definition monthsShort : list string :=
  ["Jan"; "Feb"; "Mar"; "Apr"; "May"; "Jun";
   "Jul"; "Aug"; "Sep"; "Oct"; "Nov"; "Dec"].

(** Token [MMM]. *)
Definition MMM (m : t) : string := nth (month m) monthsShort "".

(** The locale's [ordinal]: [number + output]. *)
Definition ordinal (number : nat) : string :=
  let b := number mod 10 in
  let output :=
    if ((number mod 100) / 10 =? 1)%nat then "th"
    else if (b =? 1)%nat then "st"
    else if (b =? 2)%nat then "nd"
    else if (b =? 3)%nat then "rd"
    else "th" in
  Js.decimal number ++ output.

(** Token [Do]. *)
Definition Do (m : t) : string := ordinal (date m).

Fixpoint zeros (n : nat) : string :=
  match n with
  | O => EmptyString
  | S n' => String "0" (zeros n')
  end.

(** [zeroFill(number, targetLength)] without a forced sign. *)
Definition zeroFill (number : Z) (targetLength : nat) : string :=
  let absNumber := Js.decimal (Z.abs_nat number) in
  let zerosToFill := targetLength - String.length absNumber in
  (if (0 <=? number)%Z then "" else "-") ++ zeros zerosToFill ++ absNumber.

(** Token [YY]: [this.year() % 100], filled to two places.  [%] is the
    remainder of truncated division. *)
Definition YY (m : t) : string := zeroFill (Z.rem (year m) 100) 2.

(** [format('MMM Do YY')]; an invalid moment ([None]) formats as the
    locale's invalid-date text. *)
Definition format_MMM_Do_YY (m : option t) : string :=
  match m with
  | None => "Invalid date"
  | Some d => MMM d ++ " " ++ Do d ++ " " ++ YY d
  end.

End Moment.

(** ** Data *)

Module Lead.

(** A lead as the API returns it. *)
Record t := mk {
  id : string;
  first_name : string;
  last_name : string;
  company : string;
  email : string;
  note : string;
  date_last_updated : string
}.

End Lead.

(** State of the [Table] component (lines 10-14). *)
Module Table.

Record State := mk {
  leads : option (list Lead.t);
  errorMessage : string;
  loaded : bool;
  activeModal : Js.flag;
  id : option string
}.

Definition initial : State :=
  {| leads := None; errorMessage := ""; loaded := false;
     activeModal := Js.Bool false; id := None |}.

Definition with_leads (v : option (list Lead.t)) (st : State) : State :=
  {| leads := v; errorMessage := errorMessage st; loaded := loaded st;
     activeModal := activeModal st; id := id st |}.

Definition with_errorMessage (v : string) (st : State) : State :=
  {| leads := leads st; errorMessage := v; loaded := loaded st;
     activeModal := activeModal st; id := id st |}.

Definition with_loaded (v : bool) (st : State) : State :=
  {| leads := leads st; errorMessage := errorMessage st; loaded := v;
     activeModal := activeModal st; id := id st |}.

Definition with_activeModal (v : Js.flag) (st : State) : State :=
  {| leads := leads st; errorMessage := errorMessage st; loaded := loaded st;
     activeModal := v; id := id st |}.

End Table.

(** State of the [LeadModal] component (lines 111-115). *)
Module LeadModal.

Record State := mk {
  firstName : string;
  lastName : string;
  company : string;
  email : string;
  note : string
}.

Definition initial : State :=
  {| firstName := ""; lastName := ""; company := ""; email := ""; note := "" |}.

Definition with_firstName (v : string) (st : State) : State :=
  {| firstName := v; lastName := lastName st; company := company st;
     email := email st; note := note st |}.

Definition with_lastName (v : string) (st : State) : State :=
  {| firstName := firstName st; lastName := v; company := company st;
     email := email st; note := note st |}.

Definition with_company (v : string) (st : State) : State :=
  {| firstName := firstName st; lastName := lastName st; company := v;
     email := email st; note := note st |}.

Definition with_email (v : string) (st : State) : State :=
  {| firstName := firstName st; lastName := lastName st; company := company st;
     email := v; note := note st |}.

Definition with_note (v : string) (st : State) : State :=
  {| firstName := firstName st; lastName := lastName st; company := company st;
     email := email st; note := v |}.

(** The five inputs of the form. *)
Inductive Field := FirstName | LastName | Company | Email | Note.

Definition value (f : Field) (st : State) : string :=
  match f with
  | FirstName => firstName st
  | LastName => lastName st
  | Company => company st
  | Email => email st
  | Note => note st
  end.

(** Line 151: [`modal ${active && 'is-active'}`]. *)
Definition className (active : Js.flag) : string :=
  "modal " ++ Js.and_string active "is-active".

End LeadModal.

(** ** The network *)

Record Request := {
  url : string;
  method : string;
  headers : list (string * string);
  body : option string
}.

(** What [response.json()] does: the promise rejects when the body is
    not JSON, and otherwise resolves to the value the body parses to,
    [null] ([None]) or an array of leads.  A body that parses to any other
    value (an object, a number, a string) is outside this type: [setLeads]
    would store it as well, and [leads.map] throws while rendering when it
    is truthy. *)
Inductive Body :=
| Throws
| Resolves (data : option (list Lead.t)).

(** A response: its [ok] flag and its body ([response.json()], read by
    [getLeads] only, and only when the response is ok). *)
Record Response := {
  ok : bool;
  json : Body
}.

(** How a [fetch] promise settles. *)
Inductive Outcome :=
| Fulfilled (response : Response)
| Rejected.

(** The rest of an [async] function after its [await fetch(...)]. *)
Inductive Continuation :=
| getLeads_await
    (* line 24 *)
| handleCreateLead_await (activeModal : Js.flag)
    (* line 141; [handleModal] of the render the click happened in *).

(** ** The virtual DOM *)

#[local] Set Warnings "-register-all".

Inductive Node :=
| Text (s : string)
| Elem (tag : string) (attrs : list (string * string)) (children : list Node).

Definition children (n : Node) : list Node :=
  match n with
  | Text _ => []
  | Elem _ _ cs => cs
  end.

Definition has_tag (t : string) (n : Node) : bool :=
  match n with
  | Text _ => false
  | Elem t' _ _ => String.eqb t t'
  end.

(** The children of the children of [n] that carry tag [t]. *)
Definition within (t : string) (n : Node) : list Node :=
  flat_map children (filter (has_tag t) (children n)).

(** The [<tr>] elements of the [<tbody>] of a rendered table. *)
Definition body_rows (n : Node) : list Node :=
  if has_tag "table" n then within "tbody" n else [].

(** The [<tr>] elements of the [<thead>] of a rendered table. *)
Definition head_rows (n : Node) : list Node :=
  if has_tag "table" n then within "thead" n else [].

(** The cells of a row. *)
Definition cells (row : Node) : list Node := children row.

(** ** The world and its monad *)

Record World := {
  table : Table.State;
  form : LeadModal.State;
  inflight : list (Request * Continuation)
}.

Definition initial_world : World :=
  {| table := Table.initial; form := LeadModal.initial; inflight := [] |}.

Definition M (A : Type) : Type := World -> A * World.

Definition ret {A} (a : A) : M A := fun w => (a, w).

Definition bind {A B} (c : M A) (k : A -> M B) : M B :=
  fun w => let (a, w') := c w in k a w'.

Definition exec {A} (c : M A) (w : World) : World := snd (c w).

Notation "x <- c1 ;; c2" := (bind c1 (fun x => c2))
  (at level 61, c1 at next level, right associativity).
Notation "c1 ;; c2" := (bind c1 (fun _ => c2))
  (at level 61, right associativity).

Definition update_table (f : Table.State -> Table.State) : M unit :=
  fun w => (tt, {| table := f (table w); form := form w; inflight := inflight w |}).

Definition update_form (f : LeadModal.State -> LeadModal.State) : M unit :=
  fun w => (tt, {| table := table w; form := f (form w); inflight := inflight w |}).

(** [fetch(url, requestOptions)] followed by [await]: the request goes in
    flight together with the rest of the calling function. *)
Definition fetch (u : string) (requestOptions : string * list (string * string) * option string)
    (k : Continuation) : M unit :=
  fun w =>
    let '(m, h, b) := requestOptions in
    (tt, {| table := table w; form := form w;
            inflight := inflight w ++ [({| url := u; method := m; headers := h; body := b |}, k)] |}).

(** The setters of [Table]. *)
Definition setLeads (v : option (list Lead.t)) : M unit := update_table (Table.with_leads v).
Definition setErrorMessage (v : string) : M unit := update_table (Table.with_errorMessage v).
Definition setLoaded (v : bool) : M unit := update_table (Table.with_loaded v).
Definition setActiveModal (v : Js.flag) : M unit := update_table (Table.with_activeModal v).

(** The setters of [LeadModal]. *)
Definition setFirstName (v : string) : M unit := update_form (LeadModal.with_firstName v).
Definition setLastName (v : string) : M unit := update_form (LeadModal.with_lastName v).
Definition setCompany (v : string) : M unit := update_form (LeadModal.with_company v).
Definition setEmail (v : string) : M unit := update_form (LeadModal.with_email v).
Definition setNote (v : string) : M unit := update_form (LeadModal.with_note v).

(** ** The components *)

Section Components.

(** [const [token] = useContext(UserContext)]: an opaque credential. *)
Variable token : string.

(** [moment(s)]: the local calendar fields the date library reads from a
    timestamp, [None] when it finds the timestamp invalid. *)
Variable moment : string -> option Moment.t.

(** *** Table *)

(** Lines 16-24: [getLeads] up to its [await]. *)
Definition getLeads : M unit :=
  let requestOptions :=
    ("GET",
     [("Content-Type", "application/json");
      ("Authorization", ("Bearer " ++ token)%string)],
     @None string) in
  fetch "/api/leads" requestOptions getLeads_await.

(** Lines 26-32: [getLeads] after its [await]. *)
Definition getLeads_then (response : Response) : M unit :=
  if negb (ok response) then
    setErrorMessage "Something went wrong!"
  else
    match json response with
    | Resolves data =>
        setLeads data ;;
        setLoaded true
    | Throws => ret tt
        (* the [await] of line 29 throws: lines 30-31 do not run *)
    end.

(** Lines 39-43.  [activeModal] is the value of the render the handler
    was created in. *)
Definition handleModal (activeModal : Js.flag) : M unit :=
  setActiveModal (Js.not activeModal) ;;
  getLeads ;;
  setActiveModal Js.Null.

(** Line 56: the click handler of the create button. *)
Definition openModal : M unit := setActiveModal (Js.Bool true).

(** Line 60: the [message] property given to [ErrorMessage]. *)
Definition ErrorMessage_message (st : Table.State) : string :=
  Table.errorMessage st.

(** Lines 76-95: one row of the table body. *)
Definition render_lead (lead : Lead.t) : Node :=
  Elem "tr" [("key", Lead.id lead)]
    [ Elem "td" [] [Text (Lead.first_name lead)];
      Elem "td" [] [Text (Lead.last_name lead)];
      Elem "td" [] [Text (Lead.company lead)];
      Elem "td" [] [Text (Lead.email lead)];
      Elem "td" [] [Text (Lead.note lead)];
      Elem "td" []
        [Text (Moment.format_MMM_Do_YY (moment (Lead.date_last_updated lead)))];
      Elem "td" []
        [ Elem "button" [("className", "button mr-2 is-info is-light")]
            [Text "Update"];
          Elem "button" [("className", "button mr-2 is-danger is-light")]
            [Text "Delete"] ] ].

Definition th (label : string) : Node :=
  Elem "th" [("scope", "col")] [Text label].

(** Lines 61-101: the table, or the placeholder.  [null] is falsy and
    every array, the empty one included, is truthy. *)
Definition render_leads (st : Table.State) : Node :=
  match Table.loaded st, Table.leads st with
  | true, Some leads =>
      Elem "table" [("className", "table is-fullwidth")]
        [ Elem "thead" []
            [ Elem "tr" []
                [ th "First Name"; th "Last Name"; th "Company"; th "Email";
                  th "Notes"; th "Last Updated"; th "Actions" ] ];
          Elem "tbody" [] (map render_lead leads) ]
  | _, _ => Elem "p" [] [Text "Loading"]
  end.

(** *** LeadModal *)

(** Lines 117-123. *)
Definition cleanFormData : M unit :=
  setFirstName "" ;;
  setLastName "" ;;
  setCompany "" ;;
  setEmail "" ;;
  setNote "".

(** Lines 133-139: the object given to [JSON.stringify]. *)
Definition lead_object (st : LeadModal.State) : JSON.object :=
  [ ("first_name", LeadModal.firstName st);
    ("last_name", LeadModal.lastName st);
    ("company", LeadModal.company st);
    ("email", LeadModal.email st);
    ("note", LeadModal.note st) ].

(** Lines 125-141: [handleCreateLead] up to its [await].  [fields] and
    [handleModal] are those of the render the click happened in;
    [e.preventDefault()] touches no state. *)
Definition handleCreateLead (fields : LeadModal.State) (activeModal : Js.flag) : M unit :=
  let requestOptions :=
    ("POST",
     [("Content-Type", "application/json");
      ("Authorization", ("Bearer " ++ token)%string)],
     Some (JSON.stringify (lead_object fields))) in
  fetch "/api/leads" requestOptions (handleCreateLead_await activeModal).

(** Lines 142-147: [handleCreateLead] after its [await]. *)
Definition handleCreateLead_then (activeModal : Js.flag) (response : Response) : M unit :=
  if negb (ok response) then
    setErrorMessage "Something went wrong when creating lead"
  else
    cleanFormData ;;
    handleModal activeModal.

(** Lines 168-222: the [onChange] handlers of the five inputs, each
    calling the setter of its field with [e.target.value]. *)
Definition onChange (f : LeadModal.Field) (value : string) : M unit :=
  match f with
  | LeadModal.FirstName => setFirstName value
  | LeadModal.LastName => setLastName value
  | LeadModal.Company => setCompany value
  | LeadModal.Email => setEmail value
  | LeadModal.Note => setNote value
  end.

(** *** The event loop *)

Definition resume (k : Continuation) (response : Response) : M unit :=
  match k with
  | getLeads_await => getLeads_then response
  | handleCreateLead_await activeModal => handleCreateLead_then activeModal response
  end.

(** The [n]-th element of a list and the list without it. *)
Fixpoint take_nth {A} (n : nat) (l : list A) : option (A * list A) :=
  match l, n with
  | [], _ => None
  | x :: l', O => Some (x, l')
  | x :: l', S n' =>
      match take_nth n' l' with
      | Some (y, r) => Some (y, x :: r)
      | None => None
      end
  end.

Inductive Event :=
| Mount
    (* lines 35-37: the effect run once after the first render *)
| ClickCreateLead
    (* line 56 *)
| Change (f : LeadModal.Field) (value : string)
    (* lines 168-222 *)
| ClickCreate
    (* line 235 *)
| ClickCancel
    (* line 240 *)
| ClickBackground
    (* line 152 *)
| Settle (n : nat) (o : Outcome)
    (* the network settles the n-th request in flight *).

(** A rejected [fetch] makes the [await] throw: the rest of the function
    does not run. *)
Definition settle (n : nat) (o : Outcome) : M unit :=
  fun w =>
    match take_nth n (inflight w) with
    | None => (tt, w)
    | Some ((_, k), rest) =>
        let w' := {| table := table w; form := form w; inflight := rest |} in
        match o with
        | Fulfilled response => resume k response w'
        | Rejected => (tt, w')
        end
    end.

(** The handler an event runs, with the values of the current render.
    The create button is rendered only while [id] is falsy (lines
    230-239); the update button in its place has no handler. *)
Definition handler (e : Event) : M unit :=
  fun w =>
    match e with
    | Mount => getLeads w
    | ClickCreateLead => openModal w
    | Change f value => onChange f value w
    | ClickCreate =>
        if Js.truthy_string (Table.id (table w)) then (tt, w)
        else handleCreateLead (form w) (Table.activeModal (table w)) w
    | ClickCancel => handleModal (Table.activeModal (table w)) w
    | ClickBackground => handleModal (Table.activeModal (table w)) w
    | Settle n o => settle n o w
    end.

Definition step (e : Event) (w : World) : World := exec (handler e) w.

Definition run (es : list Event) (w : World) : World :=
  fold_left (fun w e => step e w) es w.

End Components.

(** ** Notions used in the statements *)

(** The request [getLeads] sends. *)
Definition getLeads_request (token : string) : Request :=
  {| url := "/api/leads"; method := "GET";
     headers := [("Content-Type", "application/json");
                 ("Authorization", ("Bearer " ++ token)%string)];
     body := None |}.

(** The request [handleCreateLead] sends for the given field values. *)
Definition createLead_request (token : string) (fields : LeadModal.State) : Request :=
  {| url := "/api/leads"; method := "POST";
     headers := [("Content-Type", "application/json");
                 ("Authorization", ("Bearer " ++ token)%string)];
     body := Some (JSON.stringify (lead_object fields)) |}.

(** A cell holding a text. *)
Definition td (s : string) : Node := Elem "td" [] [Text s].

(** The table, not the placeholder, is on screen. *)
Definition shown (w : World) : Prop :=
  Table.loaded (table w) = true /\ Table.leads (table w) <> None.

(** The text a failed request leaves, by the function that sent it. *)
Definition failure_message (k : Continuation) : string :=
  match k with
  | getLeads_await => "Something went wrong!"
  | handleCreateLead_await _ => "Something went wrong when creating lead"
  end.








(** ** Sample runs *)

Definition sample_token : string := "secret".

Definition sample_moment (s : string) : option Moment.t :=
  if String.eqb s "2024-01-02T09:30:00Z" then Some (Moment.mk 2024 0 2) else None.

Definition sample_lead : Lead.t :=
  {| Lead.id := "7";
     Lead.first_name := "Ada";
     Lead.last_name := "Lovelace";
     Lead.company := "Analytical Engines";
     Lead.email := "ada@example.org";
     Lead.note := "met at the fair";
     Lead.date_last_updated := "2024-01-02T09:30:00Z" |}.

Definition ok_response : Response :=
  {| ok := true; json := Resolves (Some [sample_lead]) |}.

Definition failed_response : Response := {| ok := false; json := Throws |}.



(** The list was loaded, the modal was opened and cancelled: the reload
    is in flight. *)
Definition reloading_world : World :=
  run sample_token
    [Mount; Settle 0 (Fulfilled ok_response); ClickCreateLead; ClickCancel]
    initial_world.

(** The first load failed, the modal was opened and cancelled: the reload
    is in flight while the error text is on screen. *)
Definition stale_error_world : World :=
  run sample_token
    [Mount; Settle 0 (Fulfilled failed_response); ClickCreateLead; ClickCancel]
    initial_world.

(** The list was loaded, the form was filled in and submitted: the POST is
    in flight. *)
Definition submitting_world : World :=
  run sample_token
    [Mount; Settle 0 (Fulfilled ok_response); ClickCreateLead;
     Change LeadModal.FirstName "Grace"; Change LeadModal.LastName "Hopper";
     ClickCreate]
    initial_world.

Definition submitted_fields : LeadModal.State :=
  {| LeadModal.firstName := "Grace"; LeadModal.lastName := "Hopper";
     LeadModal.company := ""; LeadModal.email := ""; LeadModal.note := "" |}.

(** ** The rendered components

    Elements whose properties may hold closures: the tree [Table] returns
    (lines 45-103) with the tree of [LeadModal] (lines 150-246) in place of
    the component. *)

Inductive PropValue :=
| PString (s : string)
| PTrue
    (* an attribute given without a value, as [required] *)
| PClick (h : M unit)
    (* [onClick] *)
| PChange (h : string -> M unit)
    (* [onChange], as a function of [e.target.value] *).

Inductive Element :=
| EText (s : string)
| EElem (tag : string) (props : list (string * PropValue)) (children : list Element).


(** Lines 161-226: one field of the form.  The five blocks differ in the
    label, the placeholder, the state variable with its setter, and in
    whether [required] is given. *)
Definition form_field (label placeholder : string) (value : string)
    (set : string -> M unit) (required : bool) : Element :=
  EElem "div" [("className", PString "field")]
    [ EElem "label" [("className", PString "label")] [EText label];
      EElem "div" [("className", PString "control")]
        [ EElem "input"
            ([ ("type", PString "text");
               ("placeholder", PString placeholder);
               ("value", PString value);
               ("onChange", PChange (fun value => set value));
               ("className", PString "input") ]
             ++ (if required then [("required", PTrue)] else []))
            [] ] ].

(** Lines 150-246: what [LeadModal] returns for the properties [active]
    and [id] and its state; its property [handleModal] is the function of
    the render of [Table] that holds [active]. *)
Definition render_LeadModal (token : string) (active : Js.flag)
    (id : option string) (st : LeadModal.State) : Element :=
  let handleModal := handleModal token active in
  let handleCreateLead := handleCreateLead token st active in
  EElem "div" [("className", PString (LeadModal.className active))]
    [ EElem "div" [("className", PString "modal-background");
                   ("onClick", PClick handleModal)] [];
      EElem "div" [("className", PString "modal-card")]
        [ EElem "header"
            [("className", PString "modal-card-head has-background-primary-light")]
            [ EElem "h1" [("className", PString "modal-card-title")]
                [EText (if Js.truthy_string id then "Update Lead" else "Create Lead")] ];
          EElem "section" [("className", PString "modal-card-body")]
            [ EElem "form" [("action", PString "")]
                [ form_field "First Name" "Enter first name"
                    (LeadModal.firstName st) setFirstName true;
                  form_field "Last Name" "Enter last name"
                    (LeadModal.lastName st) setLastName true;
                  form_field "Company" "Enter company"
                    (LeadModal.company st) setCompany false;
                  form_field "Email" "Enter email"
                    (LeadModal.email st) setEmail false;
                  form_field "Notes" "Enter notes"
                    (LeadModal.note st) setNote false ] ];
          EElem "footer"
            [("className", PString "modal-card-foot has-background-primary-light")]
            [ (if Js.truthy_string id then
                 EElem "button" [("className", PString "button is-info")]
                   [EText "Update"]
               else
                 EElem "button" [("className", PString "button is-primary");
                                 ("onClick", PClick handleCreateLead)]
                   [EText "Create"]);
              EElem "button" [("className", PString "button");
                              ("onClick", PClick handleModal)]
                [EText "Cancel"] ] ] ].


(** *** Reading a rendered tree *)

Fixpoint prop_string (name : string) (props : list (string * PropValue)) : option string :=
  match props with
  | [] => None
  | (k, v) :: rest =>
      if String.eqb k name then
        match v with PString s => Some s | _ => None end
      else prop_string name rest
  end.


Fixpoint prop_change (props : list (string * PropValue)) : option (string -> M unit) :=
  match props with
  | [] => None
  | (k, PChange h) :: rest => if String.eqb k "onChange" then Some h else prop_change rest
  | _ :: rest => prop_change rest
  end.

Fixpoint prop_given (name : string) (props : list (string * PropValue)) : bool :=
  match props with
  | [] => false
  | (k, _) :: rest => String.eqb k name || prop_given name rest
  end.



(** An [input] element: its placeholder, the value it shows, whether it
    is marked required, and its change handler. *)
Record Input := {
  input_placeholder : option string;
  input_value : option string;
  input_required : bool;
  input_onChange : option (string -> M unit)
}.

(** The inputs of a tree, in document order. *)
Fixpoint inputs (e : Element) : list Input :=
  match e with
  | EText _ => []
  | EElem tag props cs =>
      (if String.eqb tag "input" then
         [ {| input_placeholder := prop_string "placeholder" props;
              input_value := prop_string "value" props;
              input_required := prop_given "required" props;
              input_onChange := prop_change props |} ]
       else []) ++ flat_map inputs cs
  end.

(** The position of a field in the form. *)
Definition field_index (f : LeadModal.Field) : nat :=
  match f with
  | LeadModal.FirstName => 0
  | LeadModal.LastName => 1
  | LeadModal.Company => 2
  | LeadModal.Email => 3
  | LeadModal.Note => 4
  end.


(** *** Reading a quoted string back

    The inverse of [JSON.quote_chars], used to show that a request body
    determines the values it was made of. *)

Definition unescape (e : ascii) : option ascii :=
  if Ascii.eqb e "b" then Some "008"%char
  else if Ascii.eqb e "t" then Some "009"%char
  else if Ascii.eqb e "n" then Some "010"%char
  else if Ascii.eqb e "f" then Some "012"%char
  else if Ascii.eqb e "r" then Some "013"%char
  else if Ascii.eqb e JSON.dquote then Some JSON.dquote
  else if Ascii.eqb e JSON.backslash then Some JSON.backslash
  else None.

Fixpoint index_of (c : ascii) (l : list ascii) : option nat :=
  match l with
  | [] => None
  | x :: l' =>
      if Ascii.eqb c x then Some 0
      else match index_of c l' with Some n => Some (S n) | None => None end
  end.

Definition hex_value (c : ascii) : option nat :=
  index_of c (list_ascii_of_string "0123456789abcdef").

Definition push (c : ascii) (o : option (string * string)) : option (string * string) :=
  match o with
  | Some (t, r) => Some (String c t, r)
  | None => None
  end.

(** Reads the characters of a quoted string up to its closing quote:
    the string read and what follows the closing quote. *)
Fixpoint unquote_chars (s : string) : option (string * string) :=
  match s with
  | EmptyString => None
  | String c rest =>
      if Ascii.eqb c JSON.dquote then Some (EmptyString, rest)
      else if Ascii.eqb c JSON.backslash then
        match rest with
        | EmptyString => None
        | String e rest1 =>
            if Ascii.eqb e "u" then
              match rest1 with
              | String z1 (String z2 (String h1 (String h2 rest2))) =>
                  match hex_value h1, hex_value h2 with
                  | Some a, Some b =>
                      if Ascii.eqb z1 "0" && Ascii.eqb z2 "0"
                      then push (ascii_of_nat (16 * a + b)) (unquote_chars rest2)
                      else None
                  | _, _ => None
                  end
              | _ => None
              end
            else
              match unescape e with
              | Some c' => push c' (unquote_chars rest1)
              | None => None
              end
        end
      else if (nat_of_ascii c <? 32)%nat then None
      else push c (unquote_chars rest)
  end.

(** Reads one member of an object, a quoted key, a colon and a quoted
    value: the pair read and what follows it. *)
Definition read_member (s : string) : option ((string * string) * string) :=
  match s with
  | EmptyString => None
  | String q rest =>
      if Ascii.eqb q JSON.dquote then
        match unquote_chars rest with
        | Some (k, String c (String q' rest')) =>
            if Ascii.eqb c ":" && Ascii.eqb q' JSON.dquote then
              match unquote_chars rest' with
              | Some (v, r) => Some ((k, v), r)
              | None => None
              end
            else None
        | _ => None
        end
      else None
  end.

(** Reads members separated by commas up to the closing brace, after
    which nothing may follow. *)
Fixpoint read_members (fuel : nat) (s : string) : option (list (string * string)) :=
  match fuel with
  | O => None
  | S fuel' =>
      match read_member s with
      | Some (kv, String c rest) =>
          if Ascii.eqb c "}" then
            match rest with
            | EmptyString => Some [kv]
            | _ => None
            end
          else if Ascii.eqb c "," then
            match read_members fuel' rest with
            | Some o => Some (kv :: o)
            | None => None
            end
          else None
      | _ => None
      end
  end.

(** Reads the JSON text of a flat object whose values are strings, without
    white space: the members in the order of the text.  Any other text is
    refused. *)
Definition read_object (s : string) : option (list (string * string)) :=
  match s with
  | EmptyString => None
  | String c rest =>
      if Ascii.eqb c "{" then
        if String.eqb rest "}" then Some []
        else read_members (String.length s) rest
      else None
  end.

(** A character JSON writes as it is inside a string: no control
    character, no double quote, no backslash. *)
Definition plain_char (c : ascii) : bool :=
  let n := nat_of_ascii c in
  (32 <=? n)%nat && negb (n =? 34)%nat && negb (n =? 92)%nat.

Fixpoint plain (s : string) : bool :=
  match s with
  | EmptyString => true
  | String c s' => plain_char c && plain s'
  end.

(** The string between double quotes. *)
Definition quoted (s : string) : string :=
  String JSON.dquote (s ++ String JSON.dquote EmptyString).

(** *** Traces *)

(** If the event is an ok answer to a request of [getLeads], the body of
    the answer is a sequence of leads. *)
Definition load_answer_is_list (e : Event) (w : World) : Prop :=
  match e with
  | Settle n (Fulfilled response) =>
      match take_nth n (inflight w) with
      | Some ((_, getLeads_await), _) =>
          ok response = true -> exists data, json response = Resolves (Some data)
      | _ => True
      end
  | _ => True
  end.

(** Along the run of [es] from [w], every ok answer to a request of
    [getLeads] carries a sequence of leads. *)
Fixpoint loads_answered_by_lists (token : string) (es : list Event) (w : World) : Prop :=
  match es with
  | [] => True
  | e :: es' =>
      load_answer_is_list e w /\
      loads_answered_by_lists token es' (step token e w)
  end.

(** An ok response whose body is [null]. *)
Definition null_response : Response := {| ok := true; json := Resolves None |}.

(** No event of the trace is an ok answer. *)
Definition no_ok_answer (es : list Event) : Prop :=
  forall n response, In (Settle n (Fulfilled response)) es -> ok response = false.

(** An outcome that is not an ok answer: a rejection, or a response that
    is not ok. *)
Definition failed (o : Outcome) : Prop :=
  match o with
  | Fulfilled response => ok response = false
  | Rejected => True
  end.

(** The requests the components send: to [/api/leads], with the two
    headers, either the GET of [getLeads] followed by the rest of
    [getLeads], or the POST of [handleCreateLead] for some values of the
    fields followed by the rest of [handleCreateLead]. *)
Definition sent_by_components (token : string) (rk : Request * Continuation) : Prop :=
  (fst rk = getLeads_request token /\ snd rk = getLeads_await) \/
  (exists fields a,
      fst rk = createLead_request token fields /\ snd rk = handleCreateLead_await a).

(** A run in which every answer is a failure. *)
Definition failing_trace : list Event :=
  [Mount; Settle 0 (Fulfilled failed_response); ClickCreateLead;
   Change LeadModal.FirstName "Grace"; ClickCreate; Settle 1 Rejected;
   ClickCancel; Settle 0 Rejected].

(** Events after which the loaded list is still on screen. *)
Definition later_trace : list Event :=
  [Settle 0 (Fulfilled failed_response); ClickCreateLead;
   Change LeadModal.Note "call back"; ClickCreate;
   Settle 0 (Fulfilled failed_response); ClickBackground;
   Settle 0 (Fulfilled ok_response); ClickCancel; Settle 0 Rejected].

(** The list was loaded and the form filled in. *)
Definition filled_trace : list Event :=
  [Mount; Settle 0 (Fulfilled ok_response); ClickCreateLead;
   Change LeadModal.FirstName "Grace"; Change LeadModal.LastName "Hopper"].

Definition created_response : Response :=
  {| ok := true; json := Resolves (Some []) |}.

(** * Properties *)

(** ** Basic facts about the handlers *)

Lemma getLeads_spec (token : string) (w : World) :
  exec (getLeads token) w =
  {| table := table w; form := form w;
     inflight := inflight w ++ [(getLeads_request token, getLeads_await)] |}.
Proof. reflexivity. Qed.

Lemma handleModal_spec (token : string) (a : Js.flag) (w : World) :
  exec (handleModal token a) w =
  {| table := Table.with_activeModal Js.Null (table w); form := form w;
     inflight := inflight w ++ [(getLeads_request token, getLeads_await)] |}.
Proof. reflexivity. Qed.

Lemma handleCreateLead_spec (token : string) (fields : LeadModal.State)
    (a : Js.flag) (w : World) :
  exec (handleCreateLead token fields a) w =
  {| table := table w; form := form w;
     inflight := inflight w ++
       [(createLead_request token fields, handleCreateLead_await a)] |}.
Proof. reflexivity. Qed.

Lemma cleanFormData_spec (w : World) :
  exec cleanFormData w =
  {| table := table w; form := LeadModal.initial; inflight := inflight w |}.
Proof. reflexivity. Qed.

Lemma getLeads_then_failed (response : Response) (w : World) :
  ok response = false ->
  exec (getLeads_then response) w =
  {| table := Table.with_errorMessage "Something went wrong!" (table w);
     form := form w; inflight := inflight w |}.
Proof. intros H. unfold getLeads_then. rewrite H. reflexivity. Qed.

Lemma getLeads_then_ok (response : Response) (data : option (list Lead.t))
    (w : World) :
  ok response = true ->
  json response = Resolves data ->
  exec (getLeads_then response) w =
  {| table := Table.with_loaded true (Table.with_leads data (table w));
     form := form w; inflight := inflight w |}.
Proof. intros H Hd. unfold getLeads_then. rewrite H, Hd. reflexivity. Qed.

(** An ok response whose body is not JSON changes nothing. *)
Lemma getLeads_then_ok_throws (response : Response) (w : World) :
  ok response = true ->
  json response = Throws ->
  exec (getLeads_then response) w = w.
Proof.
  intros H Hd. unfold getLeads_then. rewrite H, Hd. destruct w; reflexivity.
Qed.

(** An ok response touches nothing but the list and the loaded flag. *)
Lemma getLeads_then_ok_frame (response : Response) (w : World) :
  ok response = true ->
  let w' := exec (getLeads_then response) w in
  Table.errorMessage (table w') = Table.errorMessage (table w) /\
  Table.activeModal (table w') = Table.activeModal (table w) /\
  Table.id (table w') = Table.id (table w) /\
  form w' = form w /\
  inflight w' = inflight w.
Proof.
  intros H. unfold getLeads_then. rewrite H.
  destruct (json response); repeat split.
Qed.

Lemma handleCreateLead_then_failed (token : string) (a : Js.flag)
    (response : Response) (w : World) :
  ok response = false ->
  exec (handleCreateLead_then token a response) w =
  {| table := Table.with_errorMessage "Something went wrong when creating lead" (table w);
     form := form w; inflight := inflight w |}.
Proof. intros H. unfold handleCreateLead_then. rewrite H. reflexivity. Qed.

Lemma handleCreateLead_then_ok (token : string) (a : Js.flag)
    (response : Response) (w : World) :
  ok response = true ->
  exec (handleCreateLead_then token a response) w =
  exec (handleModal token a) (exec cleanFormData w).
Proof. intros H. unfold handleCreateLead_then. rewrite H. reflexivity. Qed.

(** Settling a request in flight with a response runs the rest of the
    function that sent it, on the world without that request. *)
Lemma step_settle (token : string) (w : World) (n : nat) (req : Request)
    (k : Continuation) (rest : list (Request * Continuation)) (response : Response) :
  take_nth n (inflight w) = Some ((req, k), rest) ->
  step token (Settle n (Fulfilled response)) w =
  exec (resume token k response)
       {| table := table w; form := form w; inflight := rest |}.
Proof.
  intros H. unfold step, handler, settle, exec. rewrite H. reflexivity.
Qed.

Lemma take_nth_length {A} (l : list A) (x : A) :
  take_nth (length l) (l ++ [x]) = Some (x, l).
Proof.
  induction l as [|y l IH]; simpl.
  - reflexivity.
  - rewrite IH. reflexivity.
Qed.

Lemma take_nth_nth_error {A} (n : nat) (l : list A) (x : A) (r : list A) :
  take_nth n l = Some (x, r) -> nth_error l n = Some x /\ length l = S (length r).
Proof.
  revert l x r. induction n as [|n IH]; intros [|y l] x r H; simpl in H; try discriminate.
  - inversion H; subst. split; reflexivity.
  - destruct (take_nth n l) as [[z q]|] eqn:E; try discriminate.
    inversion H; subst. destruct (IH _ _ _ E) as [H1 H2].
    split; [exact H1 | simpl; now rewrite H2].
Qed.

(** An invocation of [getLeads] answered at once is the whole function:
    the request it puts in flight is the last one, and settling it runs
    the lines after the [await] on the world of before. *)
Lemma getLeads_answered (token : string) (response : Response) (w : World) :
  step token (Settle (length (inflight w)) (Fulfilled response))
       (exec (getLeads token) w) =
  exec (getLeads_then response) w.
Proof.
  rewrite getLeads_spec.
  erewrite step_settle by (cbn [inflight]; apply take_nth_length).
  destruct w; reflexivity.
Qed.

Lemma handleCreateLead_answered (token : string) (fields : LeadModal.State)
    (a : Js.flag) (response : Response) (w : World) :
  step token (Settle (length (inflight w)) (Fulfilled response))
       (exec (handleCreateLead token fields a) w) =
  exec (handleCreateLead_then token a response) w.
Proof.
  rewrite handleCreateLead_spec.
  erewrite step_settle by (cbn [inflight]; apply take_nth_length).
  destruct w; reflexivity.
Qed.

(** A rejected request is dropped and nothing else changes. *)
Lemma step_rejected (token : string) (w : World) (n : nat)
    (rk : Request * Continuation) (rest : list (Request * Continuation)) :
  take_nth n (inflight w) = Some (rk, rest) ->
  step token (Settle n Rejected) w =
  {| table := table w; form := form w; inflight := rest |}.
Proof.
  intros H. unfold step, handler, settle, exec. rewrite H.
  destruct rk; reflexivity.
Qed.

(** ** Rendering *)

Section Rendering.

Variable moment : string -> option Moment.t.

Lemma body_rows_loaded (st : Table.State) (leads : list Lead.t) :
  Table.loaded st = true ->
  Table.leads st = Some leads ->
  body_rows (render_leads moment st) = map (render_lead moment) leads.
Proof.
  intros Hl Hs. unfold render_leads. rewrite Hl, Hs.
  cbn. apply app_nil_r.
Qed.

Lemma head_rows_loaded (st : Table.State) (leads : list Lead.t) :
  Table.loaded st = true ->
  Table.leads st = Some leads ->
  length (head_rows (render_leads moment st)) = 1.
Proof.
  intros Hl Hs. unfold render_leads. rewrite Hl, Hs. reflexivity.
Qed.

Lemma body_rows_placeholder (st : Table.State) :
  Table.loaded st = false \/ Table.leads st = None ->
  render_leads moment st = Elem "p" [] [Text "Loading"].
Proof.
  unfold render_leads. intros [H|H]; rewrite H.
  - reflexivity.
  - destruct (Table.loaded st); reflexivity.
Qed.

Lemma render_lead_fields (lead : Lead.t) :
  firstn 5 (cells (render_lead moment lead)) =
  map td [Lead.first_name lead; Lead.last_name lead; Lead.company lead;
          Lead.email lead; Lead.note lead].
Proof. reflexivity. Qed.


(** The view depends on the list and the loaded flag only. *)
Lemma render_leads_ext (st st' : Table.State) :
  Table.leads st' = Table.leads st ->
  Table.loaded st' = Table.loaded st ->
  render_leads moment st' = render_leads moment st.
Proof. intros H1 H2. unfold render_leads. now rewrite H1, H2. Qed.

End Rendering.

(** ** Loading the leads *)

(** C1. Whenever a request sent by [getLeads] is answered by a response
    that is not ok, the error message becomes the fixed text
    [Something went wrong!], and the list of leads and the loaded flag keep
    their values, so the table (or the placeholder) on screen is the one
    that was there before. *)
Theorem getLeads_failure_keeps_list
    (token : string) (moment : string -> option Moment.t)
    (w : World) (n : nat) (req : Request)
    (rest : list (Request * Continuation)) (response : Response) :
  take_nth n (inflight w) = Some ((req, getLeads_await), rest) ->
  ok response = false ->
  let w' := step token (Settle n (Fulfilled response)) w in
  Table.errorMessage (table w') = "Something went wrong!" /\
  Table.leads (table w') = Table.leads (table w) /\
  Table.loaded (table w') = Table.loaded (table w) /\
  render_leads moment (table w') = render_leads moment (table w).
Proof.
  intros Hn Hok w'. subst w'.
  rewrite (step_settle _ _ _ _ _ _ _ Hn). cbn [resume].
  rewrite (getLeads_then_failed _ _ Hok). cbn.
  repeat split; reflexivity.
Qed.

(** C2. Whenever a request sent by [getLeads] is answered by an ok
    response whose body is a sequence of leads, the list of leads becomes
    that whole sequence, the loaded flag becomes true, and the table is
    rendered with one header row and one body row per lead of the
    sequence, in order, whose first five cells hold the first name, last
    name, company, email and note of that lead; the empty sequence gives a
    table without body rows. *)
Theorem getLeads_success_renders_all
    (token : string) (moment : string -> option Moment.t)
    (w : World) (n : nat) (req : Request)
    (rest : list (Request * Continuation)) (response : Response)
    (data : list Lead.t) :
  take_nth n (inflight w) = Some ((req, getLeads_await), rest) ->
  ok response = true ->
  json response = Resolves (Some data) ->
  let w' := step token (Settle n (Fulfilled response)) w in
  let view := render_leads moment (table w') in
  Table.leads (table w') = Some data /\
  Table.loaded (table w') = true /\
  has_tag "table" view = true /\
  length (head_rows view) = 1 /\
  length (body_rows view) = length data /\
  (forall i lead,
      nth_error data i = Some lead ->
      exists row,
        nth_error (body_rows view) i = Some row /\
        firstn 5 (cells row) =
          map td [Lead.first_name lead; Lead.last_name lead;
                  Lead.company lead; Lead.email lead; Lead.note lead]) /\
  (data = [] -> body_rows view = []).
Proof.
  intros Hn Hok Hd w' view. subst view w'.
  rewrite (step_settle _ _ _ _ _ _ _ Hn). cbn [resume].
  rewrite (getLeads_then_ok _ _ _ Hok Hd). cbn [table].
  set (st := Table.with_loaded true _).
  assert (Hl : Table.loaded st = true) by reflexivity.
  assert (Hs : Table.leads st = Some data) by reflexivity.
  rewrite (body_rows_loaded moment st _ Hl Hs).
  rewrite (head_rows_loaded moment st _ Hl Hs).
  repeat split.
  - apply length_map.
  - intros i lead Hi. exists (render_lead moment lead). split.
    + now apply map_nth_error.
    + apply render_lead_fields.
  - intros ->. reflexivity.
Qed.

(** C7. An ok response to a request sent by [getLeads] leaves the error
    message as it was: a text set by an earlier failure stays. *)
Theorem getLeads_success_keeps_errorMessage
    (token : string) (w : World) (n : nat) (req : Request)
    (rest : list (Request * Continuation)) (response : Response) :
  take_nth n (inflight w) = Some ((req, getLeads_await), rest) ->
  ok response = true ->
  let w' := step token (Settle n (Fulfilled response)) w in
  Table.errorMessage (table w') = Table.errorMessage (table w) /\
  ErrorMessage_message (table w') = ErrorMessage_message (table w).
Proof.
  intros Hn Hok w'. subst w'.
  rewrite (step_settle _ _ _ _ _ _ _ Hn). cbn [resume].
  destruct (getLeads_then_ok_frame response
              {| table := table w; form := form w; inflight := rest |} Hok)
    as [H _].
  unfold ErrorMessage_message. split; exact H.
Qed.

(** ** Reachable worlds *)

(** No handler sets [id]: the modal stays in create mode. *)
Lemma step_keeps_id (token : string) (e : Event) (w : World) :
  Table.id (table (step token e w)) = Table.id (table w).
Proof.
  destruct e as [| |f value| | | |n o]; try reflexivity.
  - destruct f; reflexivity.
  - unfold step, handler, exec.
    destruct (Js.truthy_string (Table.id (table w))); reflexivity.
  - unfold step, handler, settle, exec.
    destruct (take_nth n (inflight w)) as [[[req k] rest]|]; [|reflexivity].
    destruct o as [response|]; [|reflexivity].
    destruct k; cbn [resume]; unfold getLeads_then, handleCreateLead_then;
      destruct (ok response); try reflexivity.
    destruct (json response); reflexivity.
Qed.

Lemma run_app (token : string) (es es' : list Event) (w : World) :
  run token (es ++ es') w = run token es' (run token es w).
Proof. unfold run. apply fold_left_app. Qed.

Lemma run_keeps_id (token : string) (es : list Event) (w : World) :
  Table.id (table (run token es w)) = Table.id (table w).
Proof.
  revert w. induction es as [|e es IH]; intros w.
  - reflexivity.
  - change (run token (e :: es) w) with (run token es (step token e w)).
    rewrite IH. apply step_keeps_id.
Qed.

Lemma reachable_create_mode (token : string) (es : list Event) :
  Js.truthy_string (Table.id (table (run token es initial_world))) = false.
Proof. rewrite run_keeps_id. reflexivity. Qed.

(** ** Quoted strings *)

Lemma string_app_assoc (a b c : string) :
  ((a ++ b) ++ c = a ++ (b ++ c))%string.
Proof. induction a as [|x a IH]; cbn; [reflexivity | now rewrite IH]. Qed.

Lemma string_app_inv_head (p a b : string) :
  (p ++ a = p ++ b)%string -> a = b.
Proof.
  induction p as [|x p IH]; cbn; intros H; [exact H|].
  apply IH. now inversion H.
Qed.

Lemma unquote_quote_char (c : ascii) (tail : string) :
  unquote_chars (JSON.quote_char c ++ tail) = push c (unquote_chars tail).
Proof. destruct c as [[] [] [] [] [] [] [] []]; reflexivity. Qed.

(** Reading back what [JSON.quote_chars] wrote gives the string and what
    follows its closing quote, whatever characters the string holds. *)
Lemma unquote_quote_chars (s rest : string) :
  unquote_chars (JSON.quote_chars s ++ String JSON.dquote rest) = Some (s, rest).
Proof.
  induction s as [|c s IH].
  - reflexivity.
  - cbn [JSON.quote_chars]. rewrite string_app_assoc, unquote_quote_char, IH.
    reflexivity.
Qed.

Lemma quote_inj_prefix (a b r1 r2 : string) :
  (JSON.quote a ++ r1 = JSON.quote b ++ r2)%string -> a = b /\ r1 = r2.
Proof.
  unfold JSON.quote. cbn [append]. rewrite !string_app_assoc. cbn [append].
  intros H. inversion H as [H'].
  apply (f_equal unquote_chars) in H'.
  rewrite !unquote_quote_chars in H'. now inversion H'.
Qed.

Lemma stringify_lead_object (st : LeadModal.State) :
  JSON.stringify (lead_object st) =
  ((("{" ++ JSON.quote "first_name") ++ ":") ++ JSON.quote (LeadModal.firstName st) ++
   (("," ++ JSON.quote "last_name") ++ ":") ++ JSON.quote (LeadModal.lastName st) ++
   (("," ++ JSON.quote "company") ++ ":") ++ JSON.quote (LeadModal.company st) ++
   (("," ++ JSON.quote "email") ++ ":") ++ JSON.quote (LeadModal.email st) ++
   (("," ++ JSON.quote "note") ++ ":") ++ JSON.quote (LeadModal.note st) ++ "}")%string.
Proof.
  unfold JSON.stringify, lead_object, JSON.member.
  cbn [map String.concat fst snd].
  rewrite !string_app_assoc. reflexivity.
Qed.

Lemma string_length_app (a b : string) :
  String.length (a ++ b) = String.length a + String.length b.
Proof. induction a as [|x a IH]; cbn; [reflexivity | now rewrite IH]. Qed.

Lemma quote_app (s rest : string) :
  (JSON.quote s ++ rest)%string =
  String JSON.dquote (JSON.quote_chars s ++ String JSON.dquote rest).
Proof. unfold JSON.quote. cbn [append]. now rewrite string_app_assoc. Qed.

(** Reading back a member [JSON.member] wrote gives its key and value. *)
Lemma read_member_member (kv : string * string) (rest : string) :
  read_member (JSON.member kv ++ rest) = Some (kv, rest).
Proof.
  destruct kv as [k v]. unfold JSON.member. cbn [fst snd].
  rewrite !string_app_assoc. cbn [append]. rewrite quote_app.
  unfold read_member. cbn [Ascii.eqb Bool.eqb JSON.dquote].
  rewrite unquote_quote_chars. rewrite quote_app.
  cbn [Ascii.eqb Bool.eqb JSON.dquote andb].
  rewrite unquote_quote_chars. reflexivity.
Qed.

Lemma read_members_concat (o : list (string * string)) (kv : string * string)
    (fuel : nat) :
  length o < fuel ->
  read_members fuel (String.concat "," (map JSON.member (kv :: o)) ++ "}") =
  Some (kv :: o).
Proof.
  revert kv fuel. induction o as [|kv' o IH]; intros kv [|fuel] Hf; try lia.
  - cbn [map String.concat read_members]. rewrite read_member_member. reflexivity.
  - change (String.concat "," (map JSON.member (kv :: kv' :: o)))
      with (JSON.member kv ++ "," ++ String.concat "," (map JSON.member (kv' :: o)))%string.
    rewrite !string_app_assoc. cbn [read_members]. rewrite read_member_member.
    cbn [append Ascii.eqb Bool.eqb].
    rewrite IH by (cbn [length] in Hf; lia). reflexivity.
Qed.

Lemma concat_members_head (o : list (string * string)) (kv : string * string)
    (t : string) :
  exists x, (String.concat "," (map JSON.member (kv :: o)) ++ t)%string =
            String JSON.dquote x.
Proof.
  destruct o as [|kv' o].
  - cbn [map String.concat]. unfold JSON.member. rewrite string_app_assoc, quote_app.
    eexists. reflexivity.
  - change (String.concat "," (map JSON.member (kv :: kv' :: o)))
      with (JSON.member kv ++ "," ++ String.concat "," (map JSON.member (kv' :: o)))%string.
    unfold JSON.member at 1. rewrite !string_app_assoc, quote_app.
    eexists. reflexivity.
Qed.

Lemma concat_members_length (o : list (string * string)) (t : string) :
  length o <= String.length (String.concat "," (map JSON.member o) ++ t).
Proof.
  induction o as [|kv o IH]; [cbn; lia|].
  destruct (concat_members_head o kv t) as [x Hx].
  destruct o as [|kv' o].
  - rewrite Hx. cbn. lia.
  - change (String.concat "," (map JSON.member (kv :: kv' :: o)))
      with (JSON.member kv ++ "," ++ String.concat "," (map JSON.member (kv' :: o)))%string.
    rewrite !string_app_assoc, string_length_app. cbn [append String.length].
    cbn [length] in IH |- *. lia.
Qed.

(** Reading back the text [JSON.stringify] wrote gives the object, with
    its keys and values in order, whatever characters they hold. *)
Lemma read_object_stringify (o : list (string * string)) :
  read_object (JSON.stringify o) = Some o.
Proof.
  unfold JSON.stringify. cbn [append]. destruct o as [|kv o]; [reflexivity|].
  unfold read_object. cbn [Ascii.eqb Bool.eqb].
  destruct (concat_members_head o kv "}") as [x Hx].
  rewrite Hx at 1. cbn [String.eqb Ascii.eqb Bool.eqb JSON.dquote].
  apply read_members_concat. cbn [String.length].
  pose proof (concat_members_length (kv :: o) "}") as H. cbn [length] in H. lia.
Qed.

Lemma quote_char_plain (c : ascii) :
  plain_char c = true -> JSON.quote_char c = String c EmptyString.
Proof.
  destruct c as [[] [] [] [] [] [] [] []];
    first [reflexivity | discriminate].
Qed.

Lemma quote_chars_plain (s : string) :
  plain s = true -> JSON.quote_chars s = s.
Proof.
  induction s as [|c s IH]; [reflexivity|]. cbn [plain JSON.quote_chars].
  intros H. apply andb_prop in H. destruct H as [Hc Hs].
  rewrite (quote_char_plain _ Hc), (IH Hs). reflexivity.
Qed.

Lemma quote_plain (s : string) : plain s = true -> JSON.quote s = quoted s.
Proof. intros H. unfold JSON.quote, quoted. now rewrite quote_chars_plain. Qed.

(** ** Creating a lead *)

(** C3, as the code has it. Whenever a request sent by [handleCreateLead]
    is answered by a response that is not ok, the error message becomes the
    fixed text [Something went wrong when creating lead], the five fields
    of the form and the flag that opens the modal keep their values, and
    nothing is sent. *)
Theorem handleCreateLead_failure_keeps_form
    (token : string) (w : World) (n : nat) (req : Request) (a : Js.flag)
    (rest : list (Request * Continuation)) (response : Response) :
  take_nth n (inflight w) = Some ((req, handleCreateLead_await a), rest) ->
  ok response = false ->
  let w' := step token (Settle n (Fulfilled response)) w in
  Table.errorMessage (table w') = "Something went wrong when creating lead" /\
  form w' = form w /\
  Table.activeModal (table w') = Table.activeModal (table w) /\
  inflight w' = rest.
Proof.
  intros Hn Hok w'. subst w'.
  rewrite (step_settle _ _ _ _ _ _ _ Hn). cbn [resume].
  rewrite (handleCreateLead_then_failed _ _ _ _ Hok).
  repeat split; reflexivity.
Qed.

(** C4. Whenever a request sent by [handleCreateLead] is answered by an ok
    response, the five fields of the form are empty afterwards and
    [handleModal] has run: it has sent one request for the leads, the only
    request the answer adds to those in flight. *)
Theorem handleCreateLead_success_clears_and_reloads
    (token : string) (w : World) (n : nat) (req : Request) (a : Js.flag)
    (rest : list (Request * Continuation)) (response : Response) :
  take_nth n (inflight w) = Some ((req, handleCreateLead_await a), rest) ->
  ok response = true ->
  let w' := step token (Settle n (Fulfilled response)) w in
  LeadModal.firstName (form w') = "" /\
  LeadModal.lastName (form w') = "" /\
  LeadModal.company (form w') = "" /\
  LeadModal.email (form w') = "" /\
  LeadModal.note (form w') = "" /\
  w' = exec (handleModal token a)
         {| table := table w; form := LeadModal.initial; inflight := rest |} /\
  inflight w' = rest ++ [(getLeads_request token, getLeads_await)].
Proof.
  intros Hn Hok w'. subst w'.
  rewrite (step_settle _ _ _ _ _ _ _ Hn). cbn [resume].
  rewrite (handleCreateLead_then_ok _ _ _ _ Hok).
  rewrite cleanFormData_spec, handleModal_spec.
  repeat split; reflexivity.
Qed.

(** The text of the body for values that need no escape. *)
Lemma stringify_lead_object_plain (st : LeadModal.State) :
  plain (LeadModal.firstName st) = true ->
  plain (LeadModal.lastName st) = true ->
  plain (LeadModal.company st) = true ->
  plain (LeadModal.email st) = true ->
  plain (LeadModal.note st) = true ->
  JSON.stringify (lead_object st) =
  ("{" ++ quoted "first_name" ++ ":" ++ quoted (LeadModal.firstName st) ++
   "," ++ quoted "last_name" ++ ":" ++ quoted (LeadModal.lastName st) ++
   "," ++ quoted "company" ++ ":" ++ quoted (LeadModal.company st) ++
   "," ++ quoted "email" ++ ":" ++ quoted (LeadModal.email st) ++
   "," ++ quoted "note" ++ ":" ++ quoted (LeadModal.note st) ++ "}")%string.
Proof.
  intros H1 H2 H3 H4 H5. rewrite stringify_lead_object.
  rewrite (quote_plain _ H1), (quote_plain _ H2), (quote_plain _ H3),
    (quote_plain _ H4), (quote_plain _ H5).
  reflexivity.
Qed.

(** C5. In every reachable world a click on the create button sends one
    request: a POST to [/api/leads] whose body is the JSON text of the
    flat object with the keys [first_name], [last_name], [company],
    [email] and [note], in this order and no others, bound to the current
    values of the fields.  Read back, the text gives exactly these five
    members; for values without quotes, backslashes and control characters
    it is the text written out below; no value of the fields stops the
    request, and for five empty fields the body is the text with five
    empty strings. *)
Theorem handleCreateLead_sends_fields (token : string) (es : list Event) :
  let w := run token es initial_world in
  let fields := form w in
  let w' := step token ClickCreate w in
  exists req text o,
    inflight w' =
      inflight w ++ [(req, handleCreateLead_await (Table.activeModal (table w)))] /\
    method req = "POST" /\
    url req = "/api/leads" /\
    body req = Some text /\
    read_object text = Some o /\
    o = [ ("first_name", LeadModal.firstName fields);
          ("last_name", LeadModal.lastName fields);
          ("company", LeadModal.company fields);
          ("email", LeadModal.email fields);
          ("note", LeadModal.note fields) ] /\
    map fst o = ["first_name"; "last_name"; "company"; "email"; "note"] /\
    ~ In "id" (map fst o) /\
    ~ In "date_last_updated" (map fst o) /\
    (plain (LeadModal.firstName fields) = true ->
     plain (LeadModal.lastName fields) = true ->
     plain (LeadModal.company fields) = true ->
     plain (LeadModal.email fields) = true ->
     plain (LeadModal.note fields) = true ->
     text =
       ("{" ++ quoted "first_name" ++ ":" ++ quoted (LeadModal.firstName fields) ++
        "," ++ quoted "last_name" ++ ":" ++ quoted (LeadModal.lastName fields) ++
        "," ++ quoted "company" ++ ":" ++ quoted (LeadModal.company fields) ++
        "," ++ quoted "email" ++ ":" ++ quoted (LeadModal.email fields) ++
        "," ++ quoted "note" ++ ":" ++ quoted (LeadModal.note fields) ++ "}")%string) /\
    (fields = LeadModal.initial ->
     text = JSON.apostrophes_as_quotes
       "{'first_name':'','last_name':'','company':'','email':'','note':''}").
Proof.
  intros w fields w'. subst w'.
  exists (createLead_request token fields),
         (JSON.stringify (lead_object fields)), (lead_object fields).
  unfold step, handler, exec. subst w.
  rewrite reachable_create_mode.
  split; [reflexivity|]. split; [reflexivity|]. split; [reflexivity|].
  split; [reflexivity|]. split; [apply read_object_stringify|].
  split; [reflexivity|]. split; [reflexivity|].
  split; [cbn; intuition discriminate|].
  split; [cbn; intuition discriminate|].
  split.
  - apply stringify_lead_object_plain.
  - intros E. rewrite E. reflexivity.
Qed.

(** A value with a double quote and a backslash in it is sent escaped:
    the quote cannot close the string early. *)
Example stringify_escapes :
  JSON.stringify
    (lead_object
       {| LeadModal.firstName := JSON.apostrophes_as_quotes "a'b\c";
          LeadModal.lastName := ""; LeadModal.company := "";
          LeadModal.email := ""; LeadModal.note := "" |}) =
  JSON.apostrophes_as_quotes
    "{'first_name':'a\'b\\c','last_name':'','company':'','email':'','note':''}".
Proof. reflexivity. Qed.

(** C6. A click on the cancel button runs [handleModal], the function a
    successful submission runs after clearing the form.  It sends one
    request, the request for the leads, and leaves the flag of the modal
    at [null], so the modal is not active. *)
Theorem cancel_reloads_once (token : string) (w : World) :
  let w' := step token ClickCancel w in
  w' = exec (handleModal token (Table.activeModal (table w))) w /\
  (forall a response w0, ok response = true ->
     exec (handleCreateLead_then token a response) w0 =
     exec (handleModal token a) (exec cleanFormData w0)) /\
  inflight w' = inflight w ++ [(getLeads_request token, getLeads_await)] /\
  Table.activeModal (table w') = Js.Null /\
  Js.truthy (Table.activeModal (table w')) = false /\
  LeadModal.className (Table.activeModal (table w')) = "modal null".
Proof.
  intros w'. subst w'. repeat split.
  intros a response w0 H. apply handleCreateLead_then_ok, H.
Qed.

(** ** The error message *)

Lemma resume_failed (token : string) (k : Continuation) (response : Response)
    (w : World) :
  ok response = false ->
  exec (resume token k response) w = exec (setErrorMessage (failure_message k)) w.
Proof.
  intros H. destruct k; cbn [resume failure_message].
  - now rewrite getLeads_then_failed.
  - now rewrite handleCreateLead_then_failed.
Qed.

(** C9. A failed load and a failed creation both report through
    [setErrorMessage], the setter of the one [errorMessage] of [Table];
    [ErrorMessage] shows that one text.  Whatever an earlier failure left
    and whatever happened since, after a failure of either kind the text is
    the one of that failure. *)
Theorem failures_share_errorMessage
    (token : string) (k1 k2 : Continuation) (r1 r2 : Response)
    (es : list Event) (w : World) :
  ok r1 = false ->
  ok r2 = false ->
  let w1 := exec (resume token k1 r1) w in
  let w2 := exec (resume token k2 r2) (run token es w1) in
  w1 = exec (setErrorMessage (failure_message k1)) w /\
  w2 = exec (setErrorMessage (failure_message k2)) (run token es w1) /\
  ErrorMessage_message (table w1) = failure_message k1 /\
  ErrorMessage_message (table w2) = failure_message k2.
Proof.
  intros H1 H2 w1 w2. subst w2 w1.
  rewrite (resume_failed _ _ _ _ H1).
  rewrite (resume_failed _ _ _ _ H2).
  repeat split; reflexivity.
Qed.

(** ** The form *)

(** C10. Typing the same value into the same field twice leaves the form,
    and the whole world, as typing it once does. *)
Theorem onChange_idempotent
    (token : string) (f : LeadModal.Field) (value : string) (w : World) :
  exec (onChange f value) (exec (onChange f value) w) = exec (onChange f value) w /\
  step token (Change f value) (step token (Change f value) w) =
    step token (Change f value) w /\
  LeadModal.value f (form (exec (onChange f value) w)) = value.
Proof. destruct f; repeat split; reflexivity. Qed.

(** ** The date column *)








Example format_Jan_2nd_24 :
  Moment.format_MMM_Do_YY (Some (Moment.mk 2024 0 2)) = "Jan 2nd 24".
Proof. reflexivity. Qed.

(** A year before the year 0 is written with its sign. *)
Example format_year_before_0 :
  Moment.format_MMM_Do_YY (Some (Moment.mk (-5) 11 23)) = "Dec 23rd -05".
Proof. reflexivity. Qed.



(** ** The theorems on the sample runs *)

Lemma getLeads_failure_keeps_list_witness :
  take_nth 0 (inflight reloading_world) =
    Some ((getLeads_request sample_token, getLeads_await), []) /\
  ok failed_response = false /\
  let w' := step sample_token (Settle 0 (Fulfilled failed_response)) reloading_world in
  Table.errorMessage (table w') = "Something went wrong!" /\
  Table.leads (table w') = Some [sample_lead] /\
  Table.loaded (table w') = true /\
  render_leads sample_moment (table w') =
    render_leads sample_moment (table reloading_world).
Proof.
  split; [reflexivity|]. split; [reflexivity|].
  exact (getLeads_failure_keeps_list sample_token sample_moment reloading_world 0
           (getLeads_request sample_token) [] failed_response eq_refl eq_refl).
Defined.

Lemma getLeads_success_renders_all_witness :
  take_nth 0 (inflight reloading_world) =
    Some ((getLeads_request sample_token, getLeads_await), []) /\
  ok ok_response = true /\
  json ok_response = Resolves (Some [sample_lead]) /\
  let w' := step sample_token (Settle 0 (Fulfilled ok_response)) reloading_world in
  let view := render_leads sample_moment (table w') in
  Table.leads (table w') = Some [sample_lead] /\
  Table.loaded (table w') = true /\
  length (body_rows view) = 1.
Proof.
  split; [reflexivity|]. split; [reflexivity|]. split; [reflexivity|].
  pose proof (getLeads_success_renders_all sample_token sample_moment
                reloading_world 0 (getLeads_request sample_token) []
                ok_response [sample_lead] eq_refl eq_refl eq_refl) as H.
  cbv zeta in H. destruct H as (H1 & H2 & _ & _ & H5 & _).
  split; [exact H1|]. split; [exact H2 | exact H5].
Defined.

Lemma getLeads_success_keeps_errorMessage_witness :
  take_nth 0 (inflight stale_error_world) =
    Some ((getLeads_request sample_token, getLeads_await), []) /\
  ok ok_response = true /\
  Table.errorMessage
    (table (step sample_token (Settle 0 (Fulfilled ok_response)) stale_error_world)) =
    "Something went wrong!".
Proof.
  split; [reflexivity|]. split; [reflexivity|].
  exact (proj1 (getLeads_success_keeps_errorMessage sample_token stale_error_world 0
                  (getLeads_request sample_token) [] ok_response eq_refl eq_refl)).
Defined.

(** C3, as the specification words it, fails: after a failed creation the
    error message is not the text [failed when creating lead]. *)
Lemma handleCreateLead_failure_message_counterexample :
  take_nth 0 (inflight submitting_world) =
    Some ((createLead_request sample_token submitted_fields,
           handleCreateLead_await (Js.Bool true)), []) /\
  ok failed_response = false /\
  ~ (let w' := step sample_token (Settle 0 (Fulfilled failed_response)) submitting_world in
     Table.errorMessage (table w') = "failed when creating lead" /\
     form w' = form submitting_world /\
     Table.activeModal (table w') = Table.activeModal (table submitting_world)).
Proof.
  split; [reflexivity|]. split; [reflexivity|].
  intros [H _]. vm_compute in H. discriminate H.
Qed.

Lemma handleCreateLead_failure_keeps_form_witness :
  take_nth 0 (inflight submitting_world) =
    Some ((createLead_request sample_token submitted_fields,
           handleCreateLead_await (Js.Bool true)), []) /\
  ok failed_response = false /\
  let w' := step sample_token (Settle 0 (Fulfilled failed_response)) submitting_world in
  Table.errorMessage (table w') = "Something went wrong when creating lead" /\
  form w' = submitted_fields /\
  Table.activeModal (table w') = Js.Bool true /\
  inflight w' = [].
Proof.
  split; [reflexivity|]. split; [reflexivity|].
  exact (handleCreateLead_failure_keeps_form sample_token submitting_world 0
           (createLead_request sample_token submitted_fields) (Js.Bool true) []
           failed_response eq_refl eq_refl).
Defined.

Lemma handleCreateLead_success_clears_and_reloads_witness :
  take_nth 0 (inflight submitting_world) =
    Some ((createLead_request sample_token submitted_fields,
           handleCreateLead_await (Js.Bool true)), []) /\
  ok ok_response = true /\
  let w' := step sample_token (Settle 0 (Fulfilled ok_response)) submitting_world in
  form w' = LeadModal.initial /\
  inflight w' = [(getLeads_request sample_token, getLeads_await)].
Proof.
  split; [reflexivity|]. split; [reflexivity|].
  pose proof (handleCreateLead_success_clears_and_reloads sample_token
                submitting_world 0
                (createLead_request sample_token submitted_fields) (Js.Bool true) []
                ok_response eq_refl eq_refl) as H.
  cbv zeta in H. destruct H as (_ & _ & _ & _ & _ & _ & H7).
  split; [reflexivity | exact H7].
Defined.

Lemma failures_share_errorMessage_witness :
  ok failed_response = false /\
  let w1 := exec (resume sample_token getLeads_await failed_response) initial_world in
  let w2 := exec (resume sample_token (handleCreateLead_await (Js.Bool true))
                    failed_response)
                 (run sample_token [ClickCreateLead; ClickCreate] w1) in
  ErrorMessage_message (table w1) = "Something went wrong!" /\
  ErrorMessage_message (table w2) = "Something went wrong when creating lead".
Proof.
  split; [reflexivity|].
  pose proof (failures_share_errorMessage sample_token getLeads_await
                (handleCreateLead_await (Js.Bool true))
                failed_response failed_response
                [ClickCreateLead; ClickCreate] initial_world eq_refl eq_refl) as H.
  cbv zeta in H. destruct H as (_ & _ & H3 & H4).
  split; [exact H3 | exact H4].
Defined.



(** * Further properties *)

(** ** Case analysis on a step *)

#[local] Ltac destruct_step e w :=
  unfold step, handler, settle, exec;
  destruct e as [| |f value| | | |n o];
  [ | | destruct f
    | destruct (Js.truthy_string (Table.id (table w))) eqn:Hid
    | | |
    destruct (take_nth n (inflight w)) as [[[req k] rest]|] eqn:Hnth;
    [ destruct o as [response|];
      [ destruct k as [|a]; cbn [resume];
        unfold getLeads_then, handleCreateLead_then;
        destruct (ok response) eqn:Hok; cbn [negb];
        match goal with
        | |- context [json response] =>
            destruct (json response) as [|data] eqn:Hjson
        | _ => idtac
        end
      | ]
    | ] ];
  cbn.

Lemma take_nth_Forall {A} (P : A -> Prop) (n : nat) (l : list A) (x : A) (r : list A) :
  take_nth n l = Some (x, r) -> Forall P l -> Forall P r.
Proof.
  revert l x r. induction n as [|n IH]; intros [|y l] x r H HF;
    simpl in H; try discriminate.
  - inversion H; subst. now inversion HF.
  - destruct (take_nth n l) as [[z q]|] eqn:E; try discriminate.
    inversion H; subst. inversion HF; subst.
    constructor; [assumption | eapply IH; eassumption].
Qed.

Lemma run_cons (token : string) (e : Event) (es : list Event) (w : World) :
  run token (e :: es) w = run token es (step token e w).
Proof. reflexivity. Qed.

Lemma run_snoc (token : string) (es : list Event) (e : Event) (w : World) :
  run token (es ++ [e]) w = step token e (run token es w).
Proof. now rewrite run_app. Qed.

(** ** What the table shows *)

Lemma load_answer_list (w : World) (n : nat) (response : Response)
    (req : Request) (rest : list (Request * Continuation)) :
  load_answer_is_list (Settle n (Fulfilled response)) w ->
  take_nth n (inflight w) = Some ((req, getLeads_await), rest) ->
  ok response = true ->
  exists data, json response = Resolves (Some data).
Proof. unfold load_answer_is_list. intros H E. rewrite E in H. exact H. Qed.

Lemma loads_answered_by_lists_app (token : string) (es es' : list Event) (w : World) :
  loads_answered_by_lists token (es ++ es') w <->
  loads_answered_by_lists token es w /\
  loads_answered_by_lists token es' (run token es w).
Proof.
  revert w. induction es as [|e es IH]; intros w; cbn [app loads_answered_by_lists].
  - change (run token [] w) with w. tauto.
  - rewrite IH, run_cons. tauto.
Qed.

Lemma step_keeps_loaded_iff_leads (token : string) (e : Event) (w : World) :
  load_answer_is_list e w ->
  (Table.loaded (table w) = true <-> Table.leads (table w) <> None) ->
  (Table.loaded (table (step token e w)) = true <->
   Table.leads (table (step token e w)) <> None).
Proof.
  intros Hlist H. destruct_step e w; try exact H.
  destruct (load_answer_list _ _ _ _ _ Hlist Hnth Hok) as [leads Hleads].
  assert (data = Some leads) by congruence. subst data.
  split; [discriminate | reflexivity].
Qed.

Lemma step_keeps_shown (token : string) (e : Event) (w : World) :
  load_answer_is_list e w -> shown w -> shown (step token e w).
Proof.
  unfold shown. intros Hlist H. destruct_step e w; try exact H.
  destruct (load_answer_list _ _ _ _ _ Hlist Hnth Hok) as [leads Hleads].
  assert (data = Some leads) by congruence. subst data.
  split; [reflexivity | discriminate].
Qed.

Lemma run_keeps_shown (token : string) (es : list Event) (w : World) :
  loads_answered_by_lists token es w -> shown w -> shown (run token es w).
Proof.
  revert w. induction es as [|e es IH]; intros w Hes H.
  - exact H.
  - destruct Hes as [He Hes].
    rewrite run_cons. apply IH; [exact Hes | now apply step_keeps_shown].
Qed.

(** X1. In every world the components reach by a run in which every ok
    answer to a load carries a sequence of leads, the loaded flag is set
    exactly when the list of leads is not [null]. *)
Theorem reachable_loaded_iff_leads (token : string) (es : list Event) :
  loads_answered_by_lists token es initial_world ->
  let w := run token es initial_world in
  Table.loaded (table w) = true <-> Table.leads (table w) <> None.
Proof.
  cbv zeta. induction es as [|e es IH] using rev_ind; intros Hes.
  - cbn. split; [discriminate | intros H; now elim H].
  - apply loads_answered_by_lists_app in Hes. destruct Hes as [Hes [He _]].
    rewrite run_snoc. apply step_keeps_loaded_iff_leads; [exact He | apply IH, Hes].
Qed.

(** Without that condition the property fails: an ok answer whose body
    is [null] sets the loaded flag and leaves the list [null], and brings
    the placeholder back over a table that was on screen. *)
Example null_body_brings_placeholder_back :
  let w := step sample_token (Settle 0 (Fulfilled null_response)) reloading_world in
  has_tag "table" (render_leads sample_moment (table reloading_world)) = true /\
  Table.loaded (table w) = true /\
  Table.leads (table w) = None /\
  render_leads sample_moment (table w) = Elem "p" [] [Text "Loading"].
Proof. repeat split. Qed.

Lemma step_keeps_placeholder (token : string) (e : Event) (w : World) :
  (forall n response, e = Settle n (Fulfilled response) -> ok response = false) ->
  Table.loaded (table w) = false /\ Table.leads (table w) = None ->
  Table.loaded (table (step token e w)) = false /\
  Table.leads (table (step token e w)) = None.
Proof.
  intros He H. destruct_step e w; try exact H;
    specialize (He _ _ eq_refl); congruence.
Qed.

(** X2. As long as no request has been answered by an ok response, the
    placeholder is on screen and not the table: failures and rejections,
    clicks and typing never set the list or the loaded flag. *)
Theorem placeholder_until_ok_answer
    (token : string) (moment : string -> option Moment.t) (es : list Event) :
  no_ok_answer es ->
  let w := run token es initial_world in
  Table.loaded (table w) = false /\
  Table.leads (table w) = None /\
  render_leads moment (table w) = Elem "p" [] [Text "Loading"].
Proof.
  intros Hes w.
  assert (H : Table.loaded (table w) = false /\ Table.leads (table w) = None).
  { subst w. induction es as [|e es IH] using rev_ind.
    - split; reflexivity.
    - rewrite run_snoc. apply step_keeps_placeholder.
      + intros n response ->. apply (Hes n response), in_or_app. right. now left.
      + apply IH. intros n response Hin. apply (Hes n response), in_or_app. now left. }
  destruct H as [H1 H2]. repeat split; try assumption.
  apply body_rows_placeholder. now left.
Qed.

(** X3. Once the table is on screen it stays there through every run in
    which each ok answer to a load carries a sequence of leads: failed
    reloads, rejections, cancels, typing and creations never bring the
    placeholder back. *)
Theorem table_stays_on_screen
    (token : string) (moment : string -> option Moment.t)
    (es : list Event) (w : World) :
  has_tag "table" (render_leads moment (table w)) = true ->
  loads_answered_by_lists token es w ->
  has_tag "table" (render_leads moment (table (run token es w))) = true.
Proof.
  intros H Hes.
  assert (Hs : shown w).
  { unfold render_leads in H. unfold shown.
    destruct (Table.loaded (table w)); [|discriminate H].
    destruct (Table.leads (table w)); [|discriminate H].
    split; [reflexivity | discriminate]. }
  destruct (run_keeps_shown token es w Hes Hs) as [Hl Hn].
  unfold render_leads. rewrite Hl.
  destruct (Table.leads (table (run token es w))); [reflexivity | now elim Hn].
Qed.

(** ** The requests *)

Lemma Forall_snoc {A} (P : A -> Prop) (l : list A) (x : A) :
  Forall P l -> P x -> Forall P (l ++ [x]).
Proof. intros Hl Hx. apply Forall_app. split; [exact Hl | now constructor]. Qed.

Lemma step_keeps_sent_by_components (token : string) (e : Event) (w : World) :
  Forall (sent_by_components token) (inflight w) ->
  Forall (sent_by_components token) (inflight (step token e w)).
Proof.
  intros H.
  assert (Hget : sent_by_components token (getLeads_request token, getLeads_await))
    by (left; split; reflexivity).
  assert (Hpost : forall fields a,
             sent_by_components token
               (createLead_request token fields, handleCreateLead_await a))
    by (intros fields a; right; exists fields, a; split; reflexivity).
  assert (Hrest : forall n x r,
             take_nth n (inflight w) = Some (x, r) ->
             Forall (sent_by_components token) r)
    by (intros n x r E; exact (take_nth_Forall _ _ _ _ _ E H)).
  destruct_step e w;
    first [ exact H
          | apply Forall_snoc; [exact H | first [exact Hget | apply Hpost]]
          | eapply Hrest; eassumption
          | apply Forall_snoc; [eapply Hrest; eassumption | exact Hget] ].
Qed.

(** X4. Every request in flight in a reachable world was sent by
    [getLeads] or by [handleCreateLead]: it goes to [/api/leads], is a GET
    without body or a POST, and carries the bearer token; no other
    endpoint or method is ever used. *)
Theorem reachable_requests (token : string) (es : list Event) :
  let w := run token es initial_world in
  Forall (sent_by_components token) (inflight w) /\
  (forall req k, In (req, k) (inflight w) ->
     url req = "/api/leads" /\
     headers req = [("Content-Type", "application/json");
                    ("Authorization", ("Bearer " ++ token)%string)] /\
     ((method req = "GET" /\ body req = None /\ k = getLeads_await) \/
      (method req = "POST" /\ body req <> None /\ k <> getLeads_await))).
Proof.
  cbv zeta.
  assert (H : Forall (sent_by_components token) (inflight (run token es initial_world))).
  { induction es as [|e es IH] using rev_ind.
    - constructor.
    - rewrite run_snoc. apply step_keeps_sent_by_components, IH. }
  split; [exact H|].
  intros req k Hin. rewrite Forall_forall in H.
  destruct (H _ Hin) as [[H1 H2] | (fields & a & H1 & H2)];
    cbn [fst snd] in H1, H2; subst req k.
  - repeat split. left. repeat split.
  - repeat split. right. repeat split; discriminate.
Qed.

(** X5. A request that is rejected or answered by a response that is not
    ok is not sent again: it leaves the requests in flight and none is
    added; the list, the loaded flag, the flag of the modal and the form
    keep their values. *)
Theorem failed_answer_not_retried
    (token : string) (w : World) (n : nat) (rk : Request * Continuation)
    (rest : list (Request * Continuation)) (o : Outcome) :
  take_nth n (inflight w) = Some (rk, rest) ->
  failed o ->
  let w' := step token (Settle n o) w in
  inflight w' = rest /\
  form w' = form w /\
  Table.leads (table w') = Table.leads (table w) /\
  Table.loaded (table w') = Table.loaded (table w) /\
  Table.activeModal (table w') = Table.activeModal (table w).
Proof.
  intros Hn Ho w'. subst w'. destruct o as [response|].
  - destruct rk as [req k]. rewrite (step_settle _ _ _ _ _ _ _ Hn).
    rewrite (resume_failed _ _ _ _ Ho). repeat split.
  - rewrite (step_rejected _ _ _ _ _ Hn). repeat split.
Qed.

(** ** The form and the modal *)

(** X6. The values typed into the form survive every event except typing
    and the ok answer to a creation, which empties the form: opening and
    cancelling the modal, a failed creation and the answers to loads leave
    them as they are. *)
Theorem form_kept (token : string) (e : Event) (w : World) :
  (forall f value, e <> Change f value) ->
  form (step token e w) = form w \/
  (form (step token e w) = LeadModal.initial /\
   exists n response req a rest,
     e = Settle n (Fulfilled response) /\ ok response = true /\
     take_nth n (inflight w) = Some ((req, handleCreateLead_await a), rest)).
Proof.
  intros He. destruct_step e w; try (left; reflexivity);
    try (now elim (He _ _ eq_refl)).
  right. split; [reflexivity|]. eexists _, _, _, _, _.
  split; [reflexivity|]. split; eassumption.
Qed.

(** X7. Only the click on the create button opens the modal: if the flag
    of the modal is truthy after an event, the event was that click or the
    flag was truthy before. *)
Theorem modal_opened_by_button_only (token : string) (e : Event) (w : World) :
  Js.truthy (Table.activeModal (table (step token e w))) = true ->
  e = ClickCreateLead \/ Js.truthy (Table.activeModal (table w)) = true.
Proof.
  destruct_step e w; intros H; try (right; exact H); try discriminate H.
  left; reflexivity.
Qed.

(** X8. Typing into one field leaves the other four fields, the state of
    the table and the requests in flight untouched, and typing into two
    different fields gives the same world in either order. *)
Theorem typing_touches_one_field
    (token : string) (f f' : LeadModal.Field) (v v' : string) (w : World) :
  f <> f' ->
  let w1 := step token (Change f v) w in
  LeadModal.value f' (form w1) = LeadModal.value f' (form w) /\
  table w1 = table w /\
  inflight w1 = inflight w /\
  step token (Change f' v') w1 =
    step token (Change f v) (step token (Change f' v') w).
Proof.
  intros Hf. destruct f, f'; try (now elim Hf); repeat split.
Qed.

(** ** The request body *)

Lemma stringify_lead_object_inj (f1 f2 : LeadModal.State) :
  JSON.stringify (lead_object f1) = JSON.stringify (lead_object f2) -> f1 = f2.
Proof.
  intros H. rewrite !stringify_lead_object in H.
  destruct f1 as [a1 b1 c1 d1 e1], f2 as [a2 b2 c2 d2 e2]. cbn [LeadModal.firstName
    LeadModal.lastName LeadModal.company LeadModal.email LeadModal.note] in H.
  apply string_app_inv_head in H. apply quote_inj_prefix in H. destruct H as [-> H].
  apply string_app_inv_head in H. apply quote_inj_prefix in H. destruct H as [-> H].
  apply string_app_inv_head in H. apply quote_inj_prefix in H. destruct H as [-> H].
  apply string_app_inv_head in H. apply quote_inj_prefix in H. destruct H as [-> H].
  apply string_app_inv_head in H. apply quote_inj_prefix in H. destruct H as [-> _].
  reflexivity.
Qed.

(** X9. The body of the request [handleCreateLead] sends determines the
    five values it was made of: two forms that differ in a field give
    different bodies, whatever characters the values hold (quotes,
    backslashes and control characters included). *)
Theorem request_body_determines_fields
    (token : string) (a : Js.flag) (f1 f2 : LeadModal.State) (w : World) :
  f1 <> f2 ->
  map (fun rk => body (fst rk)) (inflight (exec (handleCreateLead token f1 a) w)) <>
  map (fun rk => body (fst rk)) (inflight (exec (handleCreateLead token f2 a) w)).
Proof.
  intros Hne H. apply Hne.
  rewrite !handleCreateLead_spec in H. cbn [inflight] in H. rewrite !map_app in H.
  apply app_inv_head in H.
  cbn [map fst body createLead_request] in H.
  apply stringify_lead_object_inj. congruence.
Qed.

(** ** The rendered table *)




(** ** The rendered modal *)

(** X11. The five inputs of the modal are controlled by the state of the
    form: each shows the value of its field, only the first two are marked
    required, and the change handler of each is the handler of typing into
    its field, so that after typing the input shows what was typed. *)
Theorem inputs_show_the_form
    (token : string) (active : Js.flag) (id : option string)
    (st : LeadModal.State) :
  let view := render_LeadModal token active id st in
  map input_value (inputs view) =
    map (fun f => Some (LeadModal.value f st))
        [LeadModal.FirstName; LeadModal.LastName; LeadModal.Company;
         LeadModal.Email; LeadModal.Note] /\
  map input_required (inputs view) = [true; true; false; false; false] /\
  (forall f, exists i h,
      nth_error (inputs view) (field_index f) = Some i /\
      input_onChange i = Some h /\
      forall v w,
        h v w = handler token (Change f v) w /\
        exists i',
          nth_error (inputs (render_LeadModal token active id (form (exec (h v) w))))
                    (field_index f) = Some i' /\
          input_value i' = Some v).
Proof.
  cbv zeta. unfold render_LeadModal.
  destruct (Js.truthy_string id);
    (split; [reflexivity|]); (split; [reflexivity|]);
    intros f; destruct f; eexists _, _; (split; [reflexivity|]);
    (split; [reflexivity|]); intros v w; (split; [reflexivity|]);
    eexists; split; reflexivity.
Qed.


(** ** A creation from click to reloaded list *)

(** X13. In a reachable world, a click on the create button whose request
    is answered by an ok response, followed by an ok answer to the reload
    it triggers whose body is a sequence of leads, ends with that sequence
    as the list, an empty form, a closed modal and the requests in flight
    of before.  Until the reload is answered the list is the one of before
    the click. *)
Theorem create_then_reload
    (token : string) (es : list Event) (created reloaded : Response)
    (data : list Lead.t) :
  ok created = true ->
  ok reloaded = true ->
  json reloaded = Resolves (Some data) ->
  let w := run token es initial_world in
  let n := length (inflight w) in
  let w1 := step token ClickCreate w in
  let w2 := step token (Settle n (Fulfilled created)) w1 in
  let w3 := step token (Settle n (Fulfilled reloaded)) w2 in
  Table.leads (table w2) = Table.leads (table w) /\
  inflight w2 = inflight w ++ [(getLeads_request token, getLeads_await)] /\
  Table.leads (table w3) = Some data /\
  Table.loaded (table w3) = true /\
  Table.errorMessage (table w3) = Table.errorMessage (table w) /\
  Table.activeModal (table w3) = Js.Null /\
  form w3 = LeadModal.initial /\
  inflight w3 = inflight w.
Proof.
  intros H1 H2 Hd w n w1 w2 w3.
  assert (E1 : w1 = exec (handleCreateLead token (form w)
                            (Table.activeModal (table w))) w).
  { subst w1. unfold step, handler, exec. subst w.
    now rewrite reachable_create_mode. }
  assert (E2 : w2 = exec (handleModal token (Table.activeModal (table w)))
                         (exec cleanFormData w)).
  { subst w2 n. rewrite E1, handleCreateLead_answered.
    now apply handleCreateLead_then_ok. }
  assert (E3 : w3 = exec (getLeads_then reloaded)
                         {| table := Table.with_activeModal Js.Null (table w);
                            form := LeadModal.initial; inflight := inflight w |}).
  { subst w3. rewrite E2, handleModal_spec, cleanFormData_spec. cbn [table form inflight].
    erewrite step_settle by (cbn [inflight]; apply take_nth_length).
    reflexivity. }
  rewrite E3, (getLeads_then_ok _ _ _ H2 Hd), E2, handleModal_spec, cleanFormData_spec.
  repeat split.
Qed.

(** ** The error message over a run *)

Lemma step_errorMessage (token : string) (e : Event) (w : World) :
  Table.errorMessage (table (step token e w)) = Table.errorMessage (table w) \/
  Table.errorMessage (table (step token e w)) = "Something went wrong!" \/
  Table.errorMessage (table (step token e w)) =
    "Something went wrong when creating lead".
Proof. destruct_step e w; auto. Qed.

(** X14. In every reachable world the error message is empty or one of
    the two fixed texts; no other text is ever shown. *)
Theorem reachable_errorMessage (token : string) (es : list Event) :
  In (ErrorMessage_message (table (run token es initial_world)))
     [""; "Something went wrong!"; "Something went wrong when creating lead"].
Proof.
  induction es as [|e es IH] using rev_ind.
  - now left.
  - rewrite run_snoc. unfold ErrorMessage_message in *.
    destruct (step_errorMessage token e (run token es initial_world))
      as [H|[H|H]]; rewrite H; cbn; auto.
Qed.

(** X15. No event clears the error message: once a text is shown, a text
    stays on screen whatever happens next, a successful load or creation
    included. *)
Theorem errorMessage_never_cleared
    (token : string) (es : list Event) (w : World) :
  ErrorMessage_message (table w) <> "" ->
  ErrorMessage_message (table (run token es w)) <> "".
Proof.
  unfold ErrorMessage_message. revert w.
  induction es as [|e es IH]; intros w H.
  - exact H.
  - rewrite run_cons. apply IH.
    destruct (step_errorMessage token e w) as [E|[E|E]]; rewrite E;
      [exact H | discriminate | discriminate].
Qed.

(** ** The further properties on the sample runs *)

Lemma placeholder_until_ok_answer_witness :
  no_ok_answer failing_trace /\
  render_leads sample_moment (table (run sample_token failing_trace initial_world)) =
    Elem "p" [] [Text "Loading"].
Proof.
  assert (H : no_ok_answer failing_trace).
  { intros n response Hin. cbn in Hin.
    repeat (destruct Hin as [Hin|Hin]; [inversion Hin; reflexivity|]).
    destruct Hin. }
  split; [exact H|].
  exact (proj2 (proj2 (placeholder_until_ok_answer sample_token sample_moment
                         failing_trace H))).
Defined.

Lemma table_stays_on_screen_witness :
  has_tag "table" (render_leads sample_moment (table reloading_world)) = true /\
  loads_answered_by_lists sample_token later_trace reloading_world /\
  has_tag "table"
    (render_leads sample_moment (table (run sample_token later_trace reloading_world))) =
    true.
Proof.
  assert (H : loads_answered_by_lists sample_token later_trace reloading_world).
  { cbn. repeat split;
      intros Hok; first [discriminate Hok | exists [sample_lead]; reflexivity]. }
  split; [reflexivity|]. split; [exact H|].
  exact (table_stays_on_screen sample_token sample_moment later_trace
           reloading_world eq_refl H).
Defined.

Lemma reachable_loaded_iff_leads_witness :
  loads_answered_by_lists sample_token filled_trace initial_world /\
  (Table.loaded (table (run sample_token filled_trace initial_world)) = true <->
   Table.leads (table (run sample_token filled_trace initial_world)) <> None).
Proof.
  assert (H : loads_answered_by_lists sample_token filled_trace initial_world).
  { cbn. repeat split;
      intros Hok; first [discriminate Hok | exists [sample_lead]; reflexivity]. }
  split; [exact H|].
  exact (reachable_loaded_iff_leads sample_token filled_trace H).
Defined.

Lemma failed_answer_not_retried_witness :
  take_nth 0 (inflight submitting_world) =
    Some ((createLead_request sample_token submitted_fields,
           handleCreateLead_await (Js.Bool true)), []) /\
  failed Rejected /\
  let w' := step sample_token (Settle 0 Rejected) submitting_world in
  inflight w' = [] /\ form w' = submitted_fields.
Proof.
  split; [reflexivity|]. split; [exact I|].
  pose proof (failed_answer_not_retried sample_token submitting_world 0
                (createLead_request sample_token submitted_fields,
                 handleCreateLead_await (Js.Bool true)) [] Rejected eq_refl I) as H.
  cbv zeta in H. destruct H as (H1 & H2 & _).
  split; [exact H1 | exact H2].
Defined.

Lemma form_kept_witness :
  (forall f value, ClickCancel <> Change f value) /\
  (form (step sample_token ClickCancel submitting_world) = form submitting_world \/
   (form (step sample_token ClickCancel submitting_world) = LeadModal.initial /\
    exists n response req a rest,
      ClickCancel = Settle n (Fulfilled response) /\ ok response = true /\
      take_nth n (inflight submitting_world) =
        Some ((req, handleCreateLead_await a), rest))).
Proof.
  assert (H : forall f value, ClickCancel <> Change f value)
    by (intros f value; discriminate).
  split; [exact H|].
  exact (form_kept sample_token ClickCancel submitting_world H).
Defined.

Lemma modal_opened_by_button_only_witness :
  Js.truthy (Table.activeModal
               (table (step sample_token ClickCreateLead initial_world))) = true /\
  (ClickCreateLead = ClickCreateLead \/
   Js.truthy (Table.activeModal (table initial_world)) = true).
Proof.
  split; [reflexivity|].
  exact (modal_opened_by_button_only sample_token ClickCreateLead initial_world
           eq_refl).
Defined.

Lemma typing_touches_one_field_witness :
  LeadModal.FirstName <> LeadModal.Email /\
  let w1 := step sample_token (Change LeadModal.FirstName "Ada") submitting_world in
  LeadModal.value LeadModal.Email (form w1) = "" /\
  LeadModal.value LeadModal.LastName (form w1) = "Hopper".
Proof.
  assert (H : LeadModal.FirstName <> LeadModal.Email) by discriminate.
  split; [exact H|].
  split.
  - exact (proj1 (typing_touches_one_field sample_token LeadModal.FirstName
                    LeadModal.Email "Ada" "" submitting_world H)).
  - reflexivity.
Defined.

Lemma request_body_determines_fields_witness :
  submitted_fields <> LeadModal.initial /\
  map (fun rk => body (fst rk))
      (inflight (exec (handleCreateLead sample_token submitted_fields (Js.Bool true))
                      initial_world)) <>
  map (fun rk => body (fst rk))
      (inflight (exec (handleCreateLead sample_token LeadModal.initial (Js.Bool true))
                      initial_world)).
Proof.
  assert (H : submitted_fields <> LeadModal.initial) by discriminate.
  split; [exact H|].
  exact (request_body_determines_fields sample_token (Js.Bool true)
           submitted_fields LeadModal.initial initial_world H).
Defined.

Lemma create_then_reload_witness :
  ok created_response = true /\
  ok ok_response = true /\
  json ok_response = Resolves (Some [sample_lead]) /\
  let w := run sample_token filled_trace initial_world in
  let w1 := step sample_token ClickCreate w in
  let w2 := step sample_token (Settle 0 (Fulfilled created_response)) w1 in
  let w3 := step sample_token (Settle 0 (Fulfilled ok_response)) w2 in
  Table.leads (table w3) = Some [sample_lead] /\
  form w3 = LeadModal.initial /\
  inflight w3 = [].
Proof.
  split; [reflexivity|]. split; [reflexivity|]. split; [reflexivity|].
  pose proof (create_then_reload sample_token filled_trace created_response
                ok_response [sample_lead] eq_refl eq_refl eq_refl) as H.
  cbv zeta in H. destruct H as (_ & _ & H3 & _ & _ & _ & H7 & H8).
  split; [exact H3|]. split; [exact H7 | exact H8].
Defined.

Lemma errorMessage_never_cleared_witness :
  ErrorMessage_message (table stale_error_world) <> "" /\
  ErrorMessage_message
    (table (run sample_token
              [Settle 0 (Fulfilled ok_response); ClickCreateLead; ClickCreate;
               Settle 0 (Fulfilled created_response);
               Settle 0 (Fulfilled ok_response)]
              stale_error_world)) <> "".
Proof.
  assert (H : ErrorMessage_message (table stale_error_world) <> "")
    by discriminate.
  split; [exact H|].
  exact (errorMessage_never_cleared sample_token _ stale_error_world H).
Defined.
